(** * unified_z_modulation.py: the synergistic Z-modulation post-processor

    A shallow embedding of [SynergisticProcessor] and the properties of its
    line rewriter, coordinate extractor, modulation engine and stream driver.

    Modelling conventions.
    - A Python [float] is idealised as a real number ([R]); [math.sin],
      [math.cos] and [math.pi] are [sin], [cos] and [PI].  Rounding of the
      binary representation is not modelled, so a point that rounding puts
      on the other side of a comparison (a band edge of the wave, a decimal
      tie of the formatter) is not covered.
    - A Python [int] is a [Z]; [%] on integers is [Z.modulo] (the result has
      the sign of the divisor in both languages).
    - A line is a [string] of 8-bit characters read as Latin-1 code points; on
      that range the regex class [\d] is exactly ['0'..'9'].
    - An exception is a value of [exn], and a fallible function returns a
      [result].  The output file is the list of the strings written to it, in
      order; what was written before an exception stays written. *)

From Stdlib Require Import Reals Lra Lia ZArith List Bool Ascii String.
From Stdlib Require Import DecimalString.
Import ListNotations.

Open Scope string_scope.
Open Scope Z_scope.
Open Scope R_scope.

(** ** Exceptions *)

Inductive exn : Type :=
| KeyError (key : string)
| ValueError
| ZeroDivisionError.

Inductive result (A : Type) : Type :=
| Ok (a : A)
| Raise (e : exn).

Arguments Ok {A} a.
Arguments Raise {A} e.

Definition bind {A B : Type} (r : result A) (k : A -> result B) : result B :=
  match r with
  | Ok a => k a
  | Raise e => Raise e
  end.

Notation "x <- r ;; k" := (bind r (fun x => k))
  (at level 61, r at next level, right associativity).

(** ** The data model *)

Inductive PrintFeature : Type :=
| INFILL
| INTERNAL_PERIMETER
| EXTERNAL_PERIMETER.

Record SynergisticProcessor : Type := mkProcessor {
  infill_amplitude : R;
  wavelength : R;
  transition_length : R;
  bricklayer_shift : R;
  layer_group_size : Z;
  current_layer : Z;
  total_z_shift : R;
  infill_pattern : string;
  infill_angle : R
}.

(** [SynergisticProcessor.__init__]: no argument, no check, fixed values. *)
Definition __init__ : SynergisticProcessor :=
  {| infill_amplitude := 15 / 100;
     wavelength := 4;
     transition_length := 2 / 10;
     bricklayer_shift := 1 / 10;
     layer_group_size := 2;
     current_layer := 0;
     total_z_shift := 0;
     infill_pattern := "rectilinear";
     infill_angle := 45 |}.

Definition set_total_z_shift (p : SynergisticProcessor) (t : R) :=
  {| infill_amplitude := infill_amplitude p;
     wavelength := wavelength p;
     transition_length := transition_length p;
     bricklayer_shift := bricklayer_shift p;
     layer_group_size := layer_group_size p;
     current_layer := current_layer p;
     total_z_shift := t;
     infill_pattern := infill_pattern p;
     infill_angle := infill_angle p |}.

Definition set_current_layer (p : SynergisticProcessor) (n : Z) :=
  {| infill_amplitude := infill_amplitude p;
     wavelength := wavelength p;
     transition_length := transition_length p;
     bricklayer_shift := bricklayer_shift p;
     layer_group_size := layer_group_size p;
     current_layer := n;
     total_z_shift := total_z_shift p;
     infill_pattern := infill_pattern p;
     infill_angle := infill_angle p |}.

(** ** Text primitives *)

Module Text.

(** [sub in s] *)
Fixpoint contains (sub s : string) : bool :=
  String.prefix sub s ||
  match s with
  | EmptyString => false
  | String _ s' => contains sub s'
  end.

(** [s.startswith(p)] *)
Definition startswith (s p : string) : bool := String.prefix p s.

(** [str.isspace] on the Latin-1 range. *)
Definition isspace (c : ascii) : bool :=
  let n := N_of_ascii c in
  ((9 <=? n) && (n <=? 13) || (28 <=? n) && (n <=? 32)
   || (n =? 133) || (n =? 160))%N.

(** [s.rstrip()] *)
Fixpoint rstrip (s : string) : string :=
  match s with
  | EmptyString => EmptyString
  | String c s' =>
      match rstrip s' with
      | EmptyString => if isspace c then EmptyString else String c EmptyString
      | r => String c r
      end
  end.

(** The class [\d] *)
Definition is_digit (c : ascii) : bool :=
  let n := N_of_ascii c in ((48 <=? n) && (n <=? 57))%N.

(** The class [[\d\.]] *)
Definition is_numch (c : ascii) : bool := is_digit c || Ascii.eqb c ".".

Definition starts_numch (s : string) : bool :=
  match s with
  | EmptyString => false
  | String c _ => is_numch c
  end.

(** The longest prefix matched by [[\d\.]*], and what follows it. *)
Fixpoint take_num (s : string) : string :=
  match s with
  | EmptyString => EmptyString
  | String c s' => if is_numch c then String c (take_num s') else EmptyString
  end.

Fixpoint drop_num (s : string) : string :=
  match s with
  | EmptyString => EmptyString
  | String c s' => if is_numch c then drop_num s' else s
  end.

Fixpoint all_numch (s : string) : bool :=
  match s with
  | EmptyString => true
  | String c s' => is_numch c && all_numch s'
  end.

End Text.

Import Text.

(** ** Number conversions *)

Module Num.

Definition digit_val (c : ascii) : Z := Z.of_N (N_of_ascii c) - 48.

(** Scanner state for an unsigned decimal literal: the digits read so far as
    an integer, how many digits were read, whether the point was seen, how
    many digits follow it, and whether the text is still well formed. *)
Record lit : Type := mkLit {
  mant : Z; ndigits : nat; seen_dot : bool; frac_digits : nat; well_formed : bool
}.

Definition lit_step (l : lit) (c : ascii) : lit :=
  if is_digit c then
    mkLit (10 * mant l + digit_val c) (S (ndigits l)) (seen_dot l)
          (if seen_dot l then S (frac_digits l) else frac_digits l)
          (well_formed l)
  else if Ascii.eqb c "." then
    mkLit (mant l) (ndigits l) true (frac_digits l)
          (well_formed l && negb (seen_dot l))
  else mkLit (mant l) (ndigits l) (seen_dot l) (frac_digits l) false.

Fixpoint lit_scan (l : lit) (s : string) : lit :=
  match s with
  | EmptyString => l
  | String c s' => lit_scan (lit_step l c) s'
  end.

(** [float(s)] for a text of digits and points: a [ValueError] unless there
    is at least one digit and at most one point. *)
Definition float (s : string) : result R :=
  let l := lit_scan (mkLit 0 0 false 0 true) s in
  if well_formed l && negb (Nat.eqb (ndigits l) 0)
  then Ok (IZR (mant l) / IZR (10 ^ Z.of_nat (frac_digits l)))
  else Raise ValueError.

(** Rounding to the nearest integer, ties to even, of a non-negative real. *)
Definition round_half_even (m : R) : Z :=
  let f := Int_part m in
  let r := m - IZR f in
  if Rlt_dec r (1 / 2) then f
  else if Rlt_dec (1 / 2) r then (f + 1)%Z
  else if Z.even f then f else (f + 1)%Z.

Definition digit_char (d : Z) : ascii := ascii_of_N (Z.to_N (48 + d)).

Definition string_of_Z (n : Z) : string :=
  NilZero.string_of_uint (N.to_uint (Z.to_N n)).

(** [f"{z:.3f}"] *)
Definition format_3f (z : R) : string :=
  let n := round_half_even (Rabs z * 1000) in
  (if Rlt_dec z 0 then "-" else "")
  ++ string_of_Z (n / 1000) ++ "."
  ++ String (digit_char ((n / 100) mod 10))
       (String (digit_char ((n / 10) mod 10))
          (String (digit_char (n mod 10)) EmptyString)).

End Num.

Import Num.

(** ** The regular expressions of the source *)

Module Regex.

Definition is_axis (c : ascii) : bool :=
  Ascii.eqb c "X" || Ascii.eqb c "Y" || Ascii.eqb c "Z".

(** [re.finditer(r"([XYZ])([\d\.]+)", s)]: the pairs (group 1, group 2) of
    the matches, left to right.  A match is an axis letter with the longest
    non-empty run of digits and points after it; the run holds no axis
    letter, so no match starts inside it and the scan is structural. *)
Fixpoint finditer_axis (s : string) : list (ascii * string) :=
  match s with
  | EmptyString => []
  | String c s' =>
      if is_axis c && starts_numch s'
      then (c, take_num s') :: finditer_axis s'
      else finditer_axis s'
  end.

(** [re.sub(r"Z[\d\.]+", repl, s)]: every match is replaced ([count] is left
    at its default).  [in_match] is true while the scan is inside the run of
    a match already replaced. *)
Fixpoint sub_z_from (in_match : bool) (repl s : string) : string :=
  match s with
  | EmptyString => EmptyString
  | String c s' =>
      if in_match && is_numch c then sub_z_from true repl s'
      else if Ascii.eqb c "Z" && starts_numch s'
      then repl ++ sub_z_from true repl s'
      else String c (sub_z_from false repl s')
  end.

Definition sub_z (repl s : string) : string := sub_z_from false repl s.

End Regex.

Import Regex.

(** ** Coordinates: the dict built by [_parse_coords]

    Its keys can only be ["X"], ["Y"] and ["Z"], so it is a record of three
    optional values. *)

Record coords : Type := mkCoords {
  cX : option R; cY : option R; cZ : option R
}.

Definition empty_coords : coords := mkCoords None None None.

(** [coords[k] = v] *)
Definition setitem (c : coords) (k : ascii) (v : R) : coords :=
  if Ascii.eqb k "X" then mkCoords (Some v) (cY c) (cZ c)
  else if Ascii.eqb k "Y" then mkCoords (cX c) (Some v) (cZ c)
  else mkCoords (cX c) (cY c) (Some v).

(** [not coords] *)
Definition is_empty (c : coords) : bool :=
  match cX c, cY c, cZ c with
  | None, None, None => true
  | _, _, _ => false
  end.

(** [coords[k]] *)
Definition getitem (field : option R) (k : string) : result R :=
  match field with
  | Some v => Ok v
  | None => Raise (KeyError k)
  end.

(** [coords.get(k, d)] *)
Definition get (field : option R) (d : R) : R :=
  match field with
  | Some v => v
  | None => d
  end.

(** ** Float operators that can raise *)

(** [a / b] *)
Definition fdiv (a b : R) : result R :=
  if Req_dec_T b 0 then Raise ZeroDivisionError else Ok (a / b).

(** [a % b]: the remainder has the sign of [b]. *)
Definition fmod (a b : R) : result R :=
  if Req_dec_T b 0 then Raise ZeroDivisionError
  else Ok (a - b * IZR (Int_part (a / b))).

(** ** The methods of [SynergisticProcessor] *)

Definition _is_layer_change (line : string) : bool :=
  startswith line ";LAYER:" || contains ";CHANGE_LAYER" line.

Definition _detect_feature (line : string) (current_feature : PrintFeature)
  : PrintFeature :=
  if contains ";TYPE:Internal infill" line then INFILL
  else if contains ";TYPE:Internal perimeter" line then INTERNAL_PERIMETER
  else if contains ";TYPE:External perimeter" line then EXTERNAL_PERIMETER
  else current_feature.

Fixpoint _parse_coords_loop (ms : list (ascii * string)) (c : coords)
  : result coords :=
  match ms with
  | [] => Ok c
  | (k, txt) :: ms' =>
      v <- float txt ;;
      _parse_coords_loop ms' (setitem c k v)
  end.

Definition _parse_coords (line : string) : result coords :=
  _parse_coords_loop (finditer_axis line) empty_coords.

Definition nl : string := String "010" EmptyString.

Definition _update_z_value (line : string) (new_z : R) : string :=
  if contains "Z" line
  then sub_z ("Z" ++ format_3f new_z) line
  else rstrip line ++ " Z" ++ format_3f new_z ++ nl.

Definition _square_wave_z (p : SynergisticProcessor) (x y phase : R)
  : result R :=
  let position := x * cos phase + y * sin phase in
  m <- fmod position (wavelength p) ;;
  normalized <- fdiv m (wavelength p) ;;
  s <- fdiv (transition_length p) (wavelength p) ;;
  if Rlt_dec normalized s then
    a <- fdiv (normalized * PI) (transition_length p) ;;
    Ok (infill_amplitude p * sin a)
  else
    s' <- fdiv (transition_length p) (wavelength p) ;;
    if Rlt_dec (1 - s') normalized then
      a <- fdiv ((normalized - 1) * PI) (transition_length p) ;;
      Ok (- infill_amplitude p * sin a)
    else
      Ok (if Rlt_dec normalized (1 / 2)
          then infill_amplitude p else - infill_amplitude p).

(** Returns the processor with its accumulator updated, and the value read
    back from it. *)
Definition _calculate_bricklayer_shift (p : SynergisticProcessor)
  : result (SynergisticProcessor * R) :=
  if (layer_group_size p =? 0)%Z then Raise ZeroDivisionError
  else
    let p' :=
      if (current_layer p mod layer_group_size p =? 0)%Z
      then set_total_z_shift p (total_z_shift p + bricklayer_shift p)
      else p in
    Ok (p', total_z_shift p').

Definition _modify_infill (p : SynergisticProcessor) (line : string)
  (brick_z_shift : R) : result string :=
  c <- _parse_coords line ;;
  if is_empty c then Ok line
  else
    let phase := IZR (current_layer p mod 2) * PI in
    x <- getitem (cX c) "X" ;;
    y <- getitem (cY c) "Y" ;;
    wave_z <- _square_wave_z p x y phase ;;
    let new_z := get (cZ c) 0 + wave_z + brick_z_shift in
    Ok (_update_z_value line new_z).

Definition _modify_internal_perimeter (line : string) (brick_z_shift : R)
  : result string :=
  c <- _parse_coords line ;;
  if is_empty c || match cZ c with None => true | Some _ => false end
  then Ok line
  else
    z <- getitem (cZ c) "Z" ;;
    Ok (_update_z_value line (z + brick_z_shift)).

Definition _process_line (p : SynergisticProcessor) (line : string)
  (feature : PrintFeature) (brick_z_shift : R) : result string :=
  match feature with
  | INFILL => _modify_infill p line brick_z_shift
  | INTERNAL_PERIMETER => _modify_internal_perimeter line brick_z_shift
  | EXTERNAL_PERIMETER => Ok line
  end.

(** The [for] loop of [_process_layer]: each line is transformed and written;
    an exception ends the loop and leaves what was written. *)
Fixpoint write_lines (p : SynergisticProcessor) (lines : list string)
  (feature : PrintFeature) (brick_z_shift : R)
  : list string * result SynergisticProcessor :=
  match lines with
  | [] => ([], Ok p)
  | line :: rest =>
      match _process_line p line feature brick_z_shift with
      | Raise e => ([], Raise e)
      | Ok modified_line =>
          let (out, r) := write_lines p rest feature brick_z_shift in
          (modified_line :: out, r)
      end
  end.

Definition _process_layer (p : SynergisticProcessor) (lines : list string)
  (feature : PrintFeature) : list string * result SynergisticProcessor :=
  match _calculate_bricklayer_shift p with
  | Raise e => ([], Raise e)
  | Ok (p', brick_z_shift) => write_lines p' lines feature brick_z_shift
  end.

(** The [for line in f_in] loop of [process_gcode] and the final flush.
    [layer_lines] and [current_feature] are the loop's local variables. *)
Fixpoint process_loop (p : SynergisticProcessor) (layer_lines : list string)
  (current_feature : PrintFeature) (input : list string)
  : list string * result SynergisticProcessor :=
  match input with
  | [] =>
      match layer_lines with
      | [] => ([], Ok p)
      | _ :: _ => _process_layer p layer_lines current_feature
      end
  | line :: rest =>
      if _is_layer_change line then
        match _process_layer p layer_lines current_feature with
        | (out, Raise e) => (out, Raise e)
        | (out, Ok p') =>
            let (out', r) :=
              process_loop (set_current_layer p' (current_layer p' + 1)) []
                           current_feature rest in
            ((out ++ out')%list, r)
        end
      else
        process_loop p (layer_lines ++ [line])%list
                     (_detect_feature line current_feature) rest
  end.

(** [process_gcode]: the lines of the input file in, the strings written to
    the output file and the final processor (or the exception) out. *)
Definition process_gcode (p : SynergisticProcessor) (input : list string)
  : list string * result SynergisticProcessor :=
  process_loop p [] EXTERNAL_PERIMETER input.

(** ** Vocabulary of the specification

    These definitions follow the words of the specification, not the code;
    the theorems below compare the code with them. *)

Module Spec.

(** "The line contains a Z token": the letter Z immediately followed by a
    digit or a point. *)
Fixpoint has_z_token (s : string) : bool :=
  match s with
  | EmptyString => false
  | String c s' => Ascii.eqb c "Z" && starts_numch s' || has_z_token s'
  end.

(** "That first Z token's value is replaced": the first token is rewritten
    to [repl] and the text after it is copied. *)
Fixpoint replace_first_z (repl s : string) : string :=
  match s with
  | EmptyString => EmptyString
  | String c s' =>
      if Ascii.eqb c "Z" && starts_numch s'
      then repl ++ drop_num s'
      else String c (replace_first_z repl s')
  end.

(** "Every Z token's value is replaced and no other character is altered":
    [rewrites_every_z zs s s'] reads [s] as token-free text, a token, and a
    remainder rewritten in the same way. *)
Inductive rewrites_every_z (zs : string) : string -> string -> Prop :=
| rw_no_token s :
    has_z_token s = false -> rewrites_every_z zs s s
| rw_token pre num rest rest' :
    has_z_token pre = false ->
    num <> EmptyString -> all_numch num = true -> starts_numch rest = false ->
    rewrites_every_z zs rest rest' ->
    rewrites_every_z zs (pre ++ "Z" ++ num ++ rest) (pre ++ "Z" ++ zs ++ rest').

Fixpoint all_digits (s : string) : bool :=
  match s with
  | EmptyString => true
  | String c s' => is_digit c && all_digits s'
  end.

(** "Formatted to exactly 3 decimal digits": an optional sign, a non-empty
    integer part, a point and three digits. *)
Definition three_decimals (t : string) : Prop :=
  exists sign ip d1 d2 d3,
    t = sign ++ ip ++ "." ++ String d1 (String d2 (String d3 EmptyString))
    /\ (sign = "" \/ sign = "-")
    /\ ip <> "" /\ all_digits ip = true
    /\ is_digit d1 = true /\ is_digit d2 = true /\ is_digit d3 = true.

(** "Trailing whitespace/newline is trimmed and a space plus the formatted
    Z token plus a newline is appended." *)
Definition append_z (line : string) (new_z : R) : string :=
  rstrip line ++ " Z" ++ format_3f new_z ++ nl.

(** The normalized phase of section 4.4. *)
Definition normalized (p : SynergisticProcessor) (x y phase : R) : R :=
  let position := x * cos phase + y * sin phase in
  (position - wavelength p * IZR (Int_part (position / wavelength p)))
  / wavelength p.

(** Regions 1 and 2 of section 4.4, as the specification writes them. *)
Definition rising_delta (p : SynergisticProcessor) (n : R) : R :=
  infill_amplitude p * sin (n * PI / (transition_length p / wavelength p)).

Definition falling_delta (p : SynergisticProcessor) (n : R) : R :=
  - infill_amplitude p
  * sin ((n - 1) * PI / (transition_length p / wavelength p)).


(** "Transform every buffered line according to its classified feature":
    the feature of a line is the one active once the line has been read. *)
Fixpoint line_features (current_feature : PrintFeature) (lines : list string)
  : list (string * PrintFeature) :=
  match lines with
  | [] => []
  | line :: rest =>
      let f := _detect_feature line current_feature in
      (line, f) :: line_features f rest
  end.

End Spec.

Import Spec.

(** The lines of the input that are not layer-boundary markers. *)
Definition body_lines (input : list string) : list string :=
  filter (fun l => negb (_is_layer_change l)) input.

(** The number of layer-boundary markers of the input. *)
Definition count_markers (input : list string) : Z :=
  Z.of_nat (List.length (filter _is_layer_change input)).


(** The tunables of [q] are those of [p]. *)
Definition same_parameters (p q : SynergisticProcessor) : Prop :=
  infill_amplitude q = infill_amplitude p
  /\ wavelength q = wavelength p
  /\ transition_length q = transition_length p
  /\ bricklayer_shift q = bricklayer_shift p
  /\ layer_group_size q = layer_group_size p.

(** The accumulator between two flushes: nothing before the first flush,
    and after the flush of layer [current_layer - 1] one shift for each
    group started so far. *)
Definition between_flushes (p : SynergisticProcessor) : Prop :=
  (current_layer p = 0%Z /\ total_z_shift p = 0)
  \/ ((1 <= current_layer p)%Z
      /\ total_z_shift p
         = bricklayer_shift p
           * IZR ((current_layer p - 1) / layer_group_size p + 1)).


(** The value of the loop variable [current_feature] once [lines] have been
    read, starting from [f]. *)
Definition feature_after (f : PrintFeature) (lines : list string)
  : PrintFeature :=
  fold_left (fun f l => _detect_feature l f) lines f.

(** The line holds one of the two markers that switch modulation on. *)
Definition switches_modulation (line : string) : bool :=
  contains ";TYPE:Internal infill" line
  || contains ";TYPE:Internal perimeter" line.

(** The match is for the axis Z. *)
Definition is_z_match (m : ascii * string) : bool := Ascii.eqb (fst m) "Z".

(** The text holds no letter Z. *)
Fixpoint no_letter_z (s : string) : bool :=
  match s with
  | EmptyString => true
  | String c s' => negb (Ascii.eqb c "Z") && no_letter_z s'
  end.



(** * Properties *)

(** ** Strings *)

Section TextLemmas.

Local Open Scope string_scope.

Lemma append_assoc (a b c : string) : (a ++ b) ++ c = a ++ (b ++ c).
Proof. induction a as [|x a IH]; simpl; [reflexivity | now rewrite IH]. Qed.

Lemma append_nil_r (a : string) : a ++ "" = a.
Proof. induction a as [|x a IH]; simpl; [reflexivity | now rewrite IH]. Qed.

Lemma is_numch_Z : is_numch "Z" = false.
Proof. reflexivity. Qed.

Lemma starts_numch_app (a b : string) :
  starts_numch (a ++ b)
  = match a with EmptyString => starts_numch b | _ => starts_numch a end.
Proof. destruct a; reflexivity. Qed.

Lemma take_drop_num (s : string) : take_num s ++ drop_num s = s.
Proof.
  induction s as [|c s IH]; simpl; [reflexivity|].
  destruct (is_numch c); simpl; [now rewrite IH | reflexivity].
Qed.

Lemma all_numch_take (s : string) : all_numch (take_num s) = true.
Proof.
  induction s as [|c s IH]; simpl; [reflexivity|].
  destruct (is_numch c) eqn:E; simpl; [now rewrite E | reflexivity].
Qed.

Lemma starts_numch_drop (s : string) : starts_numch (drop_num s) = false.
Proof.
  induction s as [|c s IH]; simpl; [reflexivity|].
  destruct (is_numch c) eqn:E; simpl; [exact IH | exact E].
Qed.

Lemma take_num_nonempty (s : string) :
  starts_numch s = true -> take_num s <> "".
Proof. destruct s as [|c s]; simpl; [discriminate|]. intros ->. discriminate. Qed.

Lemma length_drop_num (s : string) :
  (String.length (drop_num s) <= String.length s)%nat.
Proof.
  induction s as [|c s IH]; simpl; [lia|].
  destruct (is_numch c); simpl; lia.
Qed.

(** The scan copies token-free text up to the next letter Z. *)
Lemma sub_z_from_prefix (repl pre s : string) :
  has_z_token pre = false ->
  sub_z_from false repl (pre ++ String "Z" s)
  = pre ++ sub_z_from false repl (String "Z" s).
Proof.
  induction pre as [|c pre IH]; intros H; [reflexivity|].
  simpl in H. apply orb_false_iff in H as [Hc Hpre].
  change (String c pre ++ String "Z" s) with (String c (pre ++ String "Z" s)).
  cbn [sub_z_from andb].
  assert (Hs : Ascii.eqb c "Z" && starts_numch (pre ++ String "Z" s) = false).
  { rewrite starts_numch_app. destruct pre; [|exact Hc].
    simpl. rewrite is_numch_Z. apply andb_false_r. }
  rewrite Hs, (IH Hpre). reflexivity.
Qed.

(** Inside a replaced token the scan drops the run of digits and points. *)
Lemma sub_z_from_run (repl num rest : string) :
  all_numch num = true -> starts_numch rest = false ->
  sub_z_from true repl (num ++ rest) = sub_z_from false repl rest.
Proof.
  induction num as [|c num IH]; intros Hn Hr.
  - destruct rest as [|c rest]; [reflexivity|].
    simpl in Hr. simpl. rewrite Hr. reflexivity.
  - simpl in Hn. apply andb_true_iff in Hn as [Hc Hn].
    simpl. rewrite Hc. apply IH; assumption.
Qed.

Lemma sub_z_token (repl pre num rest : string) :
  has_z_token pre = false ->
  num <> "" -> all_numch num = true -> starts_numch rest = false ->
  sub_z repl (pre ++ "Z" ++ num ++ rest) = pre ++ repl ++ sub_z repl rest.
Proof.
  intros Hpre Hne Hn Hr. unfold sub_z.
  change ("Z" ++ num ++ rest) with (String "Z" (num ++ rest)).
  rewrite sub_z_from_prefix by assumption.
  cbn [sub_z_from andb].
  assert (Hs : starts_numch (num ++ rest) = true).
  { destruct num as [|c num]; [congruence|].
    simpl in Hn. apply andb_true_iff in Hn as [Hc _]. exact Hc. }
  rewrite Hs. simpl. rewrite sub_z_from_run by assumption. reflexivity.
Qed.

Lemma sub_z_no_token (repl s : string) :
  has_z_token s = false -> sub_z repl s = s.
Proof.
  unfold sub_z. induction s as [|c s IH]; intros H; [reflexivity|].
  simpl in H. apply orb_false_iff in H as [Hc Hs].
  simpl. rewrite Hc, (IH Hs). reflexivity.
Qed.

(** A line with a token splits at its first token. *)
Lemma first_token_split (s : string) :
  has_z_token s = true ->
  exists pre tl,
    s = pre ++ "Z" ++ take_num tl ++ drop_num tl
    /\ has_z_token pre = false /\ starts_numch tl = true
    /\ (String.length tl < String.length s)%nat.
Proof.
  induction s as [|c s IH]; intros H; [discriminate|].
  simpl in H.
  destruct (Ascii.eqb c "Z" && starts_numch s) eqn:E.
  - apply andb_true_iff in E as [Ec Es].
    apply Ascii.eqb_eq in Ec. subst c.
    exists "", s. rewrite take_drop_num. simpl. repeat split; auto.
  - simpl in H. destruct (IH H) as (pre & tl & Heq & Hpre & Htl & Hlen).
    exists (String c pre), tl. repeat split.
    + exact (f_equal (String c) Heq).
    + simpl. rewrite Hpre. rewrite orb_false_r.
      rewrite Heq in E. rewrite starts_numch_app in E.
      destruct pre; [|exact E].
      simpl in E. rewrite is_numch_Z in E. simpl. apply andb_false_r.
    + exact Htl.
    + simpl. lia.
Qed.

Lemma has_z_token_contains (s : string) :
  has_z_token s = true -> contains "Z" s = true.
Proof.
  induction s as [|c s IH]; intros H; [discriminate|].
  simpl in H. apply orb_true_iff in H as [H|H].
  - apply andb_true_iff in H as [Hc _]. apply Ascii.eqb_eq in Hc. subst c.
    simpl. destruct s; reflexivity.
  - cbn [contains]. rewrite (IH H). apply orb_true_r.
Qed.

Lemma sub_z_rewrites (zs : string) (n : nat) :
  forall s, (String.length s <= n)%nat ->
  rewrites_every_z zs s (sub_z ("Z" ++ zs) s).
Proof.
  induction n as [|n IH]; intros s Hlen.
  - destruct s; [|simpl in Hlen; lia].
    apply rw_no_token. reflexivity.
  - destruct (has_z_token s) eqn:E.
    + destruct (first_token_split s E) as (pre & tl & Heq & Hpre & Htl & Hl).
      pose proof (length_drop_num tl) as Hd.
      rewrite Heq at 2.
      rewrite sub_z_token;
        auto using take_num_nonempty, all_numch_take, starts_numch_drop.
      rewrite Heq at 1. rewrite append_assoc.
      apply rw_token;
        auto using take_num_nonempty, all_numch_take, starts_numch_drop.
      apply IH. lia.
    + rewrite sub_z_no_token by exact E. apply rw_no_token. exact E.
Qed.

End TextLemmas.

(** ** Numbers and their text *)

Section NumLemmas.

Lemma Int_part_IZR (n : Z) : Int_part (IZR n) = n.
Proof. symmetry. apply Int_part_spec. lra. Qed.

Lemma round_half_even_IZR (n : Z) : round_half_even (IZR n) = n.
Proof.
  unfold round_half_even. rewrite Int_part_IZR.
  destruct (Rlt_dec (IZR n - IZR n) (1 / 2)) as [_|H]; [reflexivity|].
  exfalso. apply H. lra.
Qed.

(** The text of a value that is a whole number of thousandths. *)
Lemma format_3f_milli (n : Z) :
  (0 <= n)%Z ->
  format_3f (IZR n / 1000)
  = (string_of_Z (n / 1000) ++ "."
     ++ String (digit_char ((n / 100) mod 10))
          (String (digit_char ((n / 10) mod 10))
             (String (digit_char (n mod 10)) EmptyString)))%string.
Proof.
  intros Hn. apply IZR_le in Hn. unfold format_3f.
  assert (Hz : 0 <= IZR n / 1000) by (apply Rmult_le_pos; lra).
  rewrite (Rabs_right (IZR n / 1000)) by lra.
  replace (IZR n / 1000 * 1000) with (IZR n) by lra.
  rewrite round_half_even_IZR.
  destruct (Rlt_dec (IZR n / 1000) 0) as [H|_]; [lra | reflexivity].
Qed.

Lemma is_digit_digit_char (d : Z) :
  (0 <= d < 10)%Z -> is_digit (digit_char d) = true.
Proof.
  intros H.
  assert (E : d = 0%Z \/ d = 1%Z \/ d = 2%Z \/ d = 3%Z \/ d = 4%Z \/ d = 5%Z
              \/ d = 6%Z \/ d = 7%Z \/ d = 8%Z \/ d = 9%Z) by lia.
  repeat (destruct E as [->|E]; [reflexivity|]). subst d. reflexivity.
Qed.

Lemma all_digits_uint (u : Decimal.uint) :
  all_digits (NilEmpty.string_of_uint u) = true.
Proof. induction u; simpl; auto. Qed.

Lemma string_of_Z_digits (n : Z) :
  string_of_Z n <> EmptyString /\ all_digits (string_of_Z n) = true.
Proof.
  unfold string_of_Z, NilZero.string_of_uint.
  destruct (N.to_uint (Z.to_N n)) as [|u|u|u|u|u|u|u|u|u|u];
    (split; [simpl; discriminate | try reflexivity; apply all_digits_uint]).
Qed.

Lemma format_3f_three_decimals (z : R) : three_decimals (format_3f z).
Proof.
  unfold three_decimals, format_3f.
  set (n := round_half_even (Rabs z * 1000)).
  exists (if Rlt_dec z 0 then "-" else "")%string, (string_of_Z (n / 1000)),
    (digit_char ((n / 100) mod 10)), (digit_char ((n / 10) mod 10)),
    (digit_char (n mod 10)).
  destruct (string_of_Z_digits (n / 1000)) as [Hne Hd].
  repeat split; auto.
  - destruct (Rlt_dec z 0); auto.
  - apply is_digit_digit_char, Z.mod_pos_bound; lia.
  - apply is_digit_digit_char, Z.mod_pos_bound; lia.
  - apply is_digit_digit_char, Z.mod_pos_bound; lia.
Qed.

End NumLemmas.

(** ** The line rewriter *)

(** C3, as amended.  On a line that holds a Z token, [_update_z_value]
    rewrites the value of every Z token of the line (not only the first one)
    to the new value, which is printed with a point and exactly three
    decimal digits, and copies every other character. *)
Theorem update_z_value_rewrites_every_token (line : string) (new_z : R) :
  has_z_token line = true ->
  rewrites_every_z (format_3f new_z) line (_update_z_value line new_z)
  /\ three_decimals (format_3f new_z).
Proof.
  intros H. split; [|apply format_3f_three_decimals].
  unfold _update_z_value. rewrite (has_z_token_contains line H).
  apply (sub_z_rewrites _ (String.length line)). lia.
Qed.

Lemma update_z_value_rewrites_every_token_witness :
  has_z_token "G1 Z1 Z2" = true
  /\ rewrites_every_z (format_3f 0) "G1 Z1 Z2" (_update_z_value "G1 Z1 Z2" 0).
Proof.
  split; [reflexivity|].
  apply (update_z_value_rewrites_every_token "G1 Z1 Z2" 0). reflexivity.
Defined.

(** C3 fails as stated: with two Z tokens on the line the second one is
    rewritten too, so the result is not the line with only its first token
    replaced. *)
Lemma update_z_value_not_first_only :
  has_z_token "G1 Z1 Z2" = true
  /\ _update_z_value "G1 Z1 Z2" 0 = "G1 Z0.000 Z0.000"
  /\ replace_first_z ("Z" ++ format_3f 0) "G1 Z1 Z2" = "G1 Z0.000 Z2"
  /\ _update_z_value "G1 Z1 Z2" 0
     <> replace_first_z ("Z" ++ format_3f 0) "G1 Z1 Z2".
Proof.
  assert (F : format_3f 0 = "0.000").
  { replace 0 with (IZR 0 / 1000) by lra.
    rewrite format_3f_milli by lia. reflexivity. }
  assert (A : _update_z_value "G1 Z1 Z2" 0 = "G1 Z0.000 Z0.000").
  { unfold _update_z_value. cbn [contains String.prefix orb]. simpl contains.
    rewrite F. reflexivity. }
  assert (B : replace_first_z ("Z" ++ format_3f 0) "G1 Z1 Z2" = "G1 Z0.000 Z2").
  { rewrite F. reflexivity. }
  repeat split; auto. rewrite A, B. discriminate.
Qed.

(** C4 on the failing input: the line has no Z token but holds the letter Z
    in its comment; [_update_z_value] returns it unchanged, whatever the new
    value, where the claim has the Z token appended. *)
Theorem update_z_value_letter_z_unchanged (new_z : R) :
  has_z_token ("G1 X1 Y1 ;Zig" ++ nl) = false
  /\ _update_z_value ("G1 X1 Y1 ;Zig" ++ nl) new_z = "G1 X1 Y1 ;Zig" ++ nl
  /\ _update_z_value ("G1 X1 Y1 ;Zig" ++ nl) new_z
     <> append_z ("G1 X1 Y1 ;Zig" ++ nl) new_z.
Proof.
  assert (A : _update_z_value ("G1 X1 Y1 ;Zig" ++ nl) new_z
              = "G1 X1 Y1 ;Zig" ++ nl) by reflexivity.
  repeat split; auto.
  rewrite A. unfold append_z. simpl. intros H.
  injection H as H. discriminate H.
Qed.

(** What holds of C4: without the letter Z anywhere on the line, the line is
    trimmed and the token appended. *)
Lemma update_z_value_appends (line : string) (new_z : R) :
  contains "Z" line = false ->
  _update_z_value line new_z = append_z line new_z.
Proof. intros H. unfold _update_z_value, append_z. now rewrite H. Qed.

(** ** The square wave *)

Section SquareWave.

Variable p : SynergisticProcessor.

Lemma normalized_range (x y phase : R) :
  wavelength p <> 0 -> 0 <= normalized p x y phase < 1.
Proof.
  intros Hw. unfold normalized.
  set (pos := x * cos phase + y * sin phase).
  destruct (base_Int_part (pos / wavelength p)) as [Hlo Hhi].
  replace ((pos - wavelength p * IZR (Int_part (pos / wavelength p)))
           / wavelength p)
    with (pos / wavelength p - IZR (Int_part (pos / wavelength p)))
    by (field; exact Hw).
  lra.
Qed.

(** The body of [_square_wave_z] once the wavelength is known not to be 0. *)
Lemma square_wave_z_unfold (x y phase : R) :
  wavelength p <> 0 ->
  _square_wave_z p x y phase
  = let n := normalized p x y phase in
    let s := transition_length p / wavelength p in
    if Rlt_dec n s then
      a <- fdiv (n * PI) (transition_length p) ;;
      Ok (infill_amplitude p * sin a)
    else if Rlt_dec (1 - s) n then
      a <- fdiv ((n - 1) * PI) (transition_length p) ;;
      Ok (- infill_amplitude p * sin a)
    else Ok (if Rlt_dec n (1 / 2)
             then infill_amplitude p else - infill_amplitude p).
Proof.
  intros Hw. unfold _square_wave_z, fmod, fdiv, normalized.
  destruct (Req_dec_T (wavelength p) 0) as [E|_]; [contradiction|].
  reflexivity.
Qed.

(** What the code returns in the rising band: the sine argument is divided
    by [transition_length], not by [transition_length / wavelength]. *)
Lemma square_wave_z_rising (x y phase : R) :
  wavelength p <> 0 -> transition_length p <> 0 ->
  normalized p x y phase < transition_length p / wavelength p ->
  _square_wave_z p x y phase
  = Ok (infill_amplitude p
        * sin (normalized p x y phase * PI / transition_length p)).
Proof.
  intros Hw Ht Hn. rewrite square_wave_z_unfold by exact Hw. cbv zeta.
  destruct (Rlt_dec _ _) as [_|H]; [|contradiction].
  unfold fdiv. destruct (Req_dec_T (transition_length p) 0); [contradiction|].
  reflexivity.
Qed.

Lemma square_wave_z_falling (x y phase : R) :
  wavelength p <> 0 -> transition_length p <> 0 ->
  ~ normalized p x y phase < transition_length p / wavelength p ->
  1 - transition_length p / wavelength p < normalized p x y phase ->
  _square_wave_z p x y phase
  = Ok (- infill_amplitude p
        * sin ((normalized p x y phase - 1) * PI / transition_length p)).
Proof.
  intros Hw Ht Hn1 Hn2. rewrite square_wave_z_unfold by exact Hw. cbv zeta.
  destruct (Rlt_dec _ _) as [H|_]; [contradiction|].
  destruct (Rlt_dec _ _) as [_|H]; [|contradiction].
  unfold fdiv. destruct (Req_dec_T (transition_length p) 0); [contradiction|].
  reflexivity.
Qed.

Lemma amplitude_sin_bound (a : R) :
  0 <= infill_amplitude p ->
  - infill_amplitude p <= infill_amplitude p * sin a <= infill_amplitude p.
Proof. intros HA. pose proof (SIN_bound a). nra. Qed.

End SquareWave.

(** C6.  With a non-negative amplitude, whatever [x], [y] and [phase] are,
    the delta that [_square_wave_z] returns lies between [-amplitude] and
    [+amplitude]; it returns one unless the wavelength is 0, in which case
    the modulo raises [ZeroDivisionError]. *)
Theorem square_wave_z_bounded (p : SynergisticProcessor) (x y phase : R) :
  0 <= infill_amplitude p ->
  match _square_wave_z p x y phase with
  | Ok d => - infill_amplitude p <= d <= infill_amplitude p
  | Raise e => e = ZeroDivisionError /\ wavelength p = 0
  end.
Proof.
  intros HA. destruct (Req_dec_T (wavelength p) 0) as [Hw|Hw].
  - unfold _square_wave_z, fmod.
    destruct (Req_dec_T (wavelength p) 0); [|contradiction].
    simpl. auto.
  - rewrite square_wave_z_unfold by exact Hw. cbv zeta.
    pose proof (normalized_range p x y phase Hw) as Hn.
    assert (Hz : transition_length p = 0 ->
                 transition_length p / wavelength p = 0).
    { intros ->. unfold Rdiv. apply Rmult_0_l. }
    destruct (Rlt_dec _ _) as [H1|H1].
    + unfold fdiv. destruct (Req_dec_T (transition_length p) 0) as [Ht|Ht].
      * rewrite (Hz Ht) in H1. lra.
      * simpl. apply amplitude_sin_bound. exact HA.
    + destruct (Rlt_dec _ _) as [H2|H2].
      * unfold fdiv. destruct (Req_dec_T (transition_length p) 0) as [Ht|Ht].
        -- rewrite (Hz Ht) in H2. lra.
        -- simpl.
           pose proof (amplitude_sin_bound p
             ((normalized p x y phase - 1) * PI / transition_length p) HA).
           lra.
      * destruct (Rlt_dec _ _); lra.
Qed.

Lemma square_wave_z_bounded_witness :
  0 <= infill_amplitude __init__
  /\ match _square_wave_z __init__ 1 0 0 with
     | Ok d => - infill_amplitude __init__ <= d <= infill_amplitude __init__
     | Raise e => e = ZeroDivisionError /\ wavelength __init__ = 0
     end.
Proof.
  assert (H : 0 <= infill_amplitude __init__) by (simpl; lra).
  split; [exact H | apply (square_wave_z_bounded __init__ 1 0 0 H)].
Defined.

Lemma init_wavelength : wavelength __init__ <> 0.
Proof. simpl. lra. Qed.

Lemma init_transition_length : transition_length __init__ <> 0.
Proof. simpl. lra. Qed.

(** The normalized phase at phase 0 under the default wavelength, for a
    point of the first wavelength. *)
Lemma normalized_phase_0 (p : SynergisticProcessor) (x y : R) :
  wavelength p = 4 -> 0 <= x < 4 -> normalized p x y 0 = x / 4.
Proof.
  intros Hw Hx. unfold normalized. rewrite cos_0, sin_0, Hw.
  replace (x * 1 + y * 0) with x by lra.
  rewrite <- (Int_part_spec (x / 4) 0) by lra. lra.
Qed.

(** On the plateau of the first half-wave the delta is the amplitude. *)
Lemma square_wave_z_plateau (p : SynergisticProcessor) (x y : R) :
  wavelength p = 4 -> transition_length p = 2 / 10 ->
  1 / 5 <= x <= 9 / 5 ->
  _square_wave_z p x y 0 = Ok (infill_amplitude p).
Proof.
  intros Hw Ht Hx.
  rewrite square_wave_z_unfold by (rewrite Hw; lra). cbv zeta.
  rewrite normalized_phase_0 by (auto; lra). rewrite Hw, Ht.
  destruct (Rlt_dec _ _); [lra|].
  destruct (Rlt_dec _ _); [lra|].
  destruct (Rlt_dec _ _); [reflexivity | lra].
Qed.

Lemma sin_PI8_lt_1 : sin (PI / 8) < 1.
Proof.
  rewrite <- sin_PI2. pose proof PI_RGT_0.
  apply sin_increasing_1; lra.
Qed.

(** C5 on the failing inputs: default parameters, phase 0, the points
    (0.1, 0) and (3.9, 0).  The normalized phase 1/40 is in the rising band:
    the code returns [amplitude * sin (PI / 8)], the claim's formula gives
    [amplitude * sin (PI / 2) = amplitude].  The normalized phase 39/40 is in
    the falling band: the code returns [- amplitude * sin (- (PI / 8))], the
    claim's formula gives [amplitude] again. *)
Theorem square_wave_z_rising_divides_by_transition_length :
  (normalized __init__ (1 / 10) 0 0 = 1 / 40
   /\ 1 / 40 < transition_length __init__ / wavelength __init__
   /\ _square_wave_z __init__ (1 / 10) 0 0 = Ok (15 / 100 * sin (PI / 8))
   /\ rising_delta __init__ (1 / 40) = 15 / 100
   /\ 15 / 100 * sin (PI / 8) < 15 / 100)
  /\ (normalized __init__ (39 / 10) 0 0 = 39 / 40
      /\ 1 - transition_length __init__ / wavelength __init__ < 39 / 40
      /\ _square_wave_z __init__ (39 / 10) 0 0
         = Ok (- (15 / 100) * sin (- (PI / 8)))
      /\ falling_delta __init__ (39 / 40) = 15 / 100
      /\ - (15 / 100) * sin (- (PI / 8)) < 15 / 100).
Proof.
  assert (N : normalized __init__ (1 / 10) 0 0 = 1 / 40).
  { rewrite normalized_phase_0; [lra | reflexivity | lra]. }
  assert (B : 1 / 40 < transition_length __init__ / wavelength __init__).
  { simpl. lra. }
  assert (N' : normalized __init__ (39 / 10) 0 0 = 39 / 40).
  { rewrite normalized_phase_0; [lra | reflexivity | lra]. }
  assert (B' : 1 - transition_length __init__ / wavelength __init__ < 39 / 40).
  { simpl. lra. }
  pose proof sin_PI8_lt_1 as S8.
  split.
  - split; [exact N|]. split; [exact B|]. split; [|split].
    + rewrite square_wave_z_rising;
        auto using init_wavelength, init_transition_length.
      * rewrite N. simpl. do 2 f_equal. f_equal. lra.
      * rewrite N. exact B.
    + unfold rising_delta. simpl.
      replace (1 / 40 * PI / (2 / 10 / 4)) with (PI / 2) by lra.
      rewrite sin_PI2. lra.
    + lra.
  - split; [exact N'|]. split; [exact B'|]. split; [|split].
    + rewrite square_wave_z_falling;
        auto using init_wavelength, init_transition_length.
      * rewrite N'. simpl. do 2 f_equal. f_equal. lra.
      * rewrite N'. simpl. lra.
      * rewrite N'. exact B'.
    + unfold falling_delta. simpl.
      replace ((39 / 40 - 1) * PI / (2 / 10 / 4)) with (- (PI / 2)) by lra.
      rewrite sin_neg, sin_PI2. lra.
    + rewrite sin_neg. lra.
Qed.

(** ** The bricklayer accumulator *)

Section Accumulator.

Local Open Scope Z_scope.

Lemma div_pred_multiple (n g : Z) :
  1 <= g -> n mod g = 0 -> (n - 1) / g + 1 = n / g.
Proof.
  intros Hg Hm. pose proof (Z.div_mod n g ltac:(lia)) as E. rewrite Hm in E.
  assert (H : n / g - 1 = (n - 1) / g).
  { apply (Z.div_unique (n - 1) g (n / g - 1) (g - 1)); lia. }
  lia.
Qed.

Lemma div_pred_nonmultiple (n g : Z) :
  1 <= g -> n mod g <> 0 -> (n - 1) / g = n / g.
Proof.
  intros Hg Hm. pose proof (Z.div_mod n g ltac:(lia)) as E.
  pose proof (Z.mod_pos_bound n g ltac:(lia)) as B.
  symmetry. apply (Z.div_unique (n - 1) g (n / g) (n mod g - 1)); lia.
Qed.

End Accumulator.


(** One call of [_calculate_bricklayer_shift]. *)
Lemma calculate_bricklayer_shift_ok (p : SynergisticProcessor) :
  layer_group_size p <> 0%Z ->
  exists p',
    _calculate_bricklayer_shift p = Ok (p', total_z_shift p')
    /\ same_parameters p p'
    /\ current_layer p' = current_layer p
    /\ total_z_shift p'
       = if (current_layer p mod layer_group_size p =? 0)%Z
         then total_z_shift p + bricklayer_shift p else total_z_shift p.
Proof.
  intros Hg. unfold _calculate_bricklayer_shift.
  destruct (layer_group_size p =? 0)%Z eqn:E;
    [apply Z.eqb_eq in E; contradiction|].
  eexists. split; [reflexivity|].
  destruct (current_layer p mod layer_group_size p =? 0)%Z;
    unfold same_parameters; simpl; repeat split; reflexivity.
Qed.

Lemma write_lines_state (p : SynergisticProcessor) (lines : list string)
  (f : PrintFeature) (s : R) (out : list string) (p' : SynergisticProcessor) :
  write_lines p lines f s = (out, Ok p') -> p' = p.
Proof.
  revert out. induction lines as [|l lines IH]; intros out H; simpl in H.
  - now inversion H.
  - destruct (_process_line p l f s); [|discriminate].
    destruct (write_lines p lines f s) as [o r] eqn:E.
    inversion H; subst. eapply IH. reflexivity.
Qed.

(** What a completed flush leaves in the processor. *)
Lemma process_layer_state (p : SynergisticProcessor) (lines : list string)
  (f : PrintFeature) (out : list string) (p' : SynergisticProcessor) :
  _process_layer p lines f = (out, Ok p') ->
  same_parameters p p'
  /\ current_layer p' = current_layer p
  /\ total_z_shift p'
     = if (current_layer p mod layer_group_size p =? 0)%Z
       then total_z_shift p + bricklayer_shift p else total_z_shift p.
Proof.
  intros H. unfold _process_layer in H.
  destruct (Z.eq_dec (layer_group_size p) 0) as [Hg|Hg].
  - unfold _calculate_bricklayer_shift in H. rewrite Hg in H. discriminate.
  - destruct (calculate_bricklayer_shift_ok p Hg) as (p1 & E & Hs & Hc & Ht).
    rewrite E in H. apply write_lines_state in H. subst p'. auto.
Qed.

(** A flush between two flushes brings the accumulator to its closed form. *)
Lemma process_layer_closed_form (p : SynergisticProcessor)
  (lines : list string) (f : PrintFeature) (out : list string)
  (p' : SynergisticProcessor) :
  (1 <= layer_group_size p)%Z -> between_flushes p ->
  _process_layer p lines f = (out, Ok p') ->
  same_parameters p p'
  /\ current_layer p' = current_layer p
  /\ total_z_shift p'
     = bricklayer_shift p
       * IZR (current_layer p / layer_group_size p + 1).
Proof.
  intros Hg Hinv H.
  destruct (process_layer_state _ _ _ _ _ H) as (Hs & Hc & Ht).
  split; [exact Hs|]. split; [exact Hc|]. rewrite Ht.
  destruct Hinv as [[H0 Hz]|[H1 Hz]].
  - rewrite H0, Hz. simpl. lra.
  - rewrite Hz.
    destruct (current_layer p mod layer_group_size p =? 0)%Z eqn:E.
    + apply Z.eqb_eq in E.
      rewrite <- (div_pred_multiple _ _ Hg E). rewrite !plus_IZR. lra.
    + apply Z.eqb_neq in E.
      rewrite (div_pred_nonmultiple _ _ Hg E). reflexivity.
Qed.

Lemma between_flushes_next (p p' : SynergisticProcessor) :
  (0 <= current_layer p)%Z ->
  same_parameters p p' -> current_layer p' = current_layer p ->
  total_z_shift p'
  = bricklayer_shift p * IZR (current_layer p / layer_group_size p + 1) ->
  between_flushes (set_current_layer p' (current_layer p' + 1)).
Proof.
  intros Hn (_ & _ & _ & Hb & Hg) Hc Ht. right. simpl.
  rewrite Hb, Hg, Hc, Ht. split; [lia|].
  replace (current_layer p + 1 - 1)%Z with (current_layer p) by lia.
  reflexivity.
Qed.

Lemma between_flushes_nonneg (p : SynergisticProcessor) :
  between_flushes p -> (0 <= current_layer p)%Z.
Proof. intros [[H _]|[H _]]; lia. Qed.

Lemma same_parameters_trans (p q r : SynergisticProcessor) :
  same_parameters p q -> same_parameters q r -> same_parameters p r.
Proof.
  unfold same_parameters.
  intros (A1 & A2 & A3 & A4 & A5) (B1 & B2 & B3 & B4 & B5).
  repeat split; congruence.
Qed.

Lemma same_parameters_next_layer (p q : SynergisticProcessor) (n : Z) :
  same_parameters p q -> same_parameters p (set_current_layer q n).
Proof. unfold same_parameters. simpl. auto. Qed.

Lemma count_markers_cons (l : string) (input : list string) :
  count_markers (l :: input)
  = (if _is_layer_change l then count_markers input + 1
     else count_markers input)%Z.
Proof.
  unfold count_markers. simpl. destruct (_is_layer_change l); simpl; lia.
Qed.

Lemma count_markers_nonneg (input : list string) :
  (0 <= count_markers input)%Z.
Proof. unfold count_markers. lia. Qed.


(** The state after a run that ends on a layer-boundary marker. *)
Lemma process_loop_marker_end (pre : list string) (mk : string) :
  _is_layer_change mk = true ->
  forall p buf f out p',
    (1 <= layer_group_size p)%Z -> between_flushes p ->
    process_loop p buf f (pre ++ [mk]) = (out, Ok p') ->
    same_parameters p p'
    /\ current_layer p' = (current_layer p + count_markers pre + 1)%Z
    /\ total_z_shift p'
       = bricklayer_shift p
         * IZR ((current_layer p + count_markers pre) / layer_group_size p + 1).
Proof.
  intros Hmk. induction pre as [|l pre IH]; intros p buf f out p' Hg Hinv H.
  - simpl in H. rewrite Hmk in H.
    destruct (_process_layer p buf f) as [o1 [p1|e]] eqn:E; [|discriminate].
    inversion H; subst.
    destruct (process_layer_closed_form _ _ _ _ _ Hg Hinv E) as (Hp & Hc & Ht).
    unfold count_markers. simpl. rewrite Z.add_0_r.
    split; [apply same_parameters_next_layer; exact Hp|].
    split; [lia | exact Ht].
  - rewrite count_markers_cons. simpl in H.
    destruct (_is_layer_change l).
    + destruct (_process_layer p buf f) as [o1 [p1|e]] eqn:E; [|discriminate].
      destruct (process_loop _ _ _ (pre ++ [mk])) as [o2 r2] eqn:E2.
      inversion H; subst.
      destruct (process_layer_closed_form _ _ _ _ _ Hg Hinv E)
        as (Hp & Hc & Ht).
      pose proof (between_flushes_nonneg p Hinv) as Hn.
      pose proof (between_flushes_next p p1 Hn Hp Hc Ht) as Hinv'.
      assert (Hp' := same_parameters_next_layer p p1 (current_layer p1 + 1) Hp).
      destruct Hp' as (P1 & P2 & P3 & P4 & P5).
      assert (Hg' : (1 <= layer_group_size
                           (set_current_layer p1 (current_layer p1 + 1)))%Z)
        by (rewrite P5; exact Hg).
      destruct (IH _ _ _ _ _ Hg' Hinv' E2) as (Q & Qc & Qt).
      rewrite P4, P5 in Qt. simpl current_layer in Qc, Qt. rewrite Hc in Qc, Qt.
      split; [|split].
      * eapply same_parameters_trans; [|exact Q].
        unfold same_parameters; auto.
      * lia.
      * replace (current_layer p + 1 + count_markers pre)%Z
          with (current_layer p + (count_markers pre + 1))%Z in Qt by lia.
        exact Qt.
    + eapply IH; eauto.
Qed.

(** The state after a run that ends on an ordinary line: the end-of-stream
    flush has run. *)
Lemma process_loop_line_end (pre : list string) (last : string) :
  _is_layer_change last = false ->
  forall p buf f out p',
    (1 <= layer_group_size p)%Z -> between_flushes p ->
    process_loop p buf f (pre ++ [last]) = (out, Ok p') ->
    same_parameters p p'
    /\ current_layer p' = (current_layer p + count_markers pre)%Z
    /\ total_z_shift p'
       = bricklayer_shift p
         * IZR ((current_layer p + count_markers pre) / layer_group_size p + 1).
Proof.
  intros Hl. induction pre as [|l pre IH]; intros p buf f out p' Hg Hinv H.
  - simpl in H. rewrite Hl in H.
    destruct (buf ++ [last])%list as [|b bs] eqn:Eb;
      [destruct buf; discriminate|].
    destruct (process_layer_closed_form _ _ _ _ _ Hg Hinv H) as (Hp & Hc & Ht).
    unfold count_markers. simpl. rewrite Z.add_0_r. auto.
  - rewrite count_markers_cons. simpl in H.
    destruct (_is_layer_change l).
    + destruct (_process_layer p buf f) as [o1 [p1|e]] eqn:E; [|discriminate].
      destruct (process_loop _ _ _ (pre ++ [last])) as [o2 r2] eqn:E2.
      inversion H; subst.
      destruct (process_layer_closed_form _ _ _ _ _ Hg Hinv E)
        as (Hp & Hc & Ht).
      pose proof (between_flushes_nonneg p Hinv) as Hn.
      pose proof (between_flushes_next p p1 Hn Hp Hc Ht) as Hinv'.
      assert (Hp' := same_parameters_next_layer p p1 (current_layer p1 + 1) Hp).
      destruct Hp' as (P1 & P2 & P3 & P4 & P5).
      assert (Hg' : (1 <= layer_group_size
                           (set_current_layer p1 (current_layer p1 + 1)))%Z)
        by (rewrite P5; exact Hg).
      destruct (IH _ _ _ _ _ Hg' Hinv' E2) as (Q & Qc & Qt).
      rewrite P4, P5 in Qt. simpl current_layer in Qc, Qt. rewrite Hc in Qc, Qt.
      split; [|split].
      * eapply same_parameters_trans; [|exact Q].
        unfold same_parameters; auto.
      * lia.
      * replace (current_layer p + 1 + count_markers pre)%Z
          with (current_layer p + (count_markers pre + 1))%Z in Qt by lia.
        exact Qt.
    + eapply IH; eauto.
Qed.

(** C10.  Starting from a fresh processor with a group size of at least 1,
    the flush triggered by a marker read while [current_layer = n] leaves the
    accumulator at [bricklayer_shift * (n / layer_group_size + 1)], where [n]
    is the number of markers read before; the lines of the layers, and
    whether a layer has lines at all, play no part.  The end-of-stream flush
    gives the same closed form. *)
Theorem accumulator_closed_form (p : SynergisticProcessor) :
  current_layer p = 0%Z -> total_z_shift p = 0 ->
  (1 <= layer_group_size p)%Z ->
  (forall pre mk out p',
      _is_layer_change mk = true ->
      process_gcode p (pre ++ [mk]) = (out, Ok p') ->
      current_layer p' = (count_markers pre + 1)%Z
      /\ total_z_shift p'
         = bricklayer_shift p
           * IZR (count_markers pre / layer_group_size p + 1))
  /\ (forall pre last out p',
         _is_layer_change last = false ->
         process_gcode p (pre ++ [last]) = (out, Ok p') ->
         current_layer p' = count_markers pre
         /\ total_z_shift p'
            = bricklayer_shift p
              * IZR (count_markers pre / layer_group_size p + 1)).
Proof.
  intros Hc Ht Hg.
  assert (Hinv : between_flushes p) by (left; auto).
  split.
  - intros pre mk out p' Hmk Hrun.
    destruct (process_loop_marker_end pre mk Hmk _ _ _ _ _ Hg Hinv Hrun)
      as (_ & Qc & Qt).
    rewrite Hc in Qc, Qt. simpl in Qc, Qt. auto.
  - intros pre last out p' Hl Hrun.
    destruct (process_loop_line_end pre last Hl _ _ _ _ _ Hg Hinv Hrun)
      as (_ & Qc & Qt).
    rewrite Hc in Qc, Qt. simpl in Qc, Qt. auto.
Qed.

Lemma accumulator_closed_form_witness :
  exists out p',
    process_gcode __init__
      (["G1 X1 Y1 Z0.2" ++ nl; ";LAYER:1" ++ nl; ";LAYER:2" ++ nl]
       ++ [";LAYER:3" ++ nl])
    = (out, Ok p')
    /\ total_z_shift p' = bricklayer_shift __init__ * IZR (2 / 2 + 1).
Proof.
  eexists. eexists. split; [reflexivity|].
  assert (Hg : (1 <= layer_group_size __init__)%Z) by (simpl; lia).
  apply (proj1 (accumulator_closed_form __init__ eq_refl eq_refl Hg)
           ["G1 X1 Y1 Z0.2" ++ nl; ";LAYER:1" ++ nl; ";LAYER:2" ++ nl]
           (";LAYER:3" ++ nl) _ _ eq_refl eq_refl).
Defined.

(** ** The stream driver *)

Section Driver.

Local Open Scope nat_scope.



Lemma body_lines_cons (l : string) (input : list string) :
  body_lines (l :: input)
  = if _is_layer_change l then body_lines input else l :: body_lines input.
Proof. unfold body_lines. simpl. destruct (_is_layer_change l); reflexivity. Qed.


End Driver.

(** ** Features and layers *)

Section Scenario.

Local Open Scope string_scope.

(** The infill line of the scenario of section 8, transformed as infill at
    layer 0 once the accumulator holds the first shift. *)
Lemma modify_infill_scenario :
  _modify_infill (set_total_z_shift __init__ (0 + 1 / 10))
    ("G1 X1.0 Y0.0 Z0.2" ++ nl) (0 + 1 / 10)
  = Ok ("G1 X1.0 Y0.0 Z0.450" ++ nl).
Proof.
  unfold _modify_infill.
  change (_parse_coords ("G1 X1.0 Y0.0 Z0.2" ++ nl))
    with (Ok (mkCoords (Some (10 / 10)) (Some (0 / 10)) (Some (2 / 10)))).
  cbn [bind is_empty cX cY cZ getitem get].
  change (current_layer (set_total_z_shift __init__ (0 + 1 / 10)) mod 2)%Z
    with 0%Z.
  rewrite Rmult_0_l.
  rewrite square_wave_z_plateau by (try reflexivity; lra).
  cbn [bind infill_amplitude set_total_z_shift __init__].
  replace (2 / 10 + 15 / 100 + (0 + 1 / 10)) with (IZR 450 / 1000) by lra.
  unfold _update_z_value. rewrite format_3f_milli by lia. reflexivity.
Qed.

Lemma write_lines_external (p : SynergisticProcessor) (lines : list string)
  (s : R) :
  write_lines p lines EXTERNAL_PERIMETER s = (lines, Ok p).
Proof.
  induction lines as [|l lines IH]; simpl; [reflexivity|].
  now rewrite IH.
Qed.

End Scenario.

(** C1 on the failing input: a layer whose second line is read while the
    infill feature is active and whose last marker switches to the external
    perimeter.  The flush uses the one feature left at the end of the layer,
    so every line is written unchanged; transformed as infill, the second
    line would carry Z0.450. *)
Theorem layer_flushed_with_last_feature :
  let l1 := ";TYPE:Internal infill" ++ nl in
  let l2 := "G1 X1.0 Y0.0 Z0.2" ++ nl in
  let l3 := ";TYPE:External perimeter" ++ nl in
  let l4 := "G1 X2 Y2 Z0.2" ++ nl in
  line_features EXTERNAL_PERIMETER [l1; l2; l3; l4]
  = [(l1, INFILL); (l2, INFILL);
     (l3, EXTERNAL_PERIMETER); (l4, EXTERNAL_PERIMETER)]
  /\ fst (process_gcode __init__ [l1; l2; l3; l4]) = [l1; l2; l3; l4]
  /\ exists p' s,
       _calculate_bricklayer_shift __init__ = Ok (p', s)
       /\ _process_line p' l2 INFILL s = Ok ("G1 X1.0 Y0.0 Z0.450" ++ nl).
Proof.
  cbv zeta. split; [reflexivity|]. split; [reflexivity|].
  exists (set_total_z_shift __init__ (0 + 1 / 10)), (0 + 1 / 10).
  split; [reflexivity|]. exact modify_infill_scenario.
Qed.

(** C2 on the failing input: under the infill feature a line that carries
    only a Z coordinate has a non-empty coordinate mapping, and reading its
    absent X raises [KeyError]; the run stops there.  A line with X and no Y
    raises on Y. *)
Theorem modify_infill_missing_axis_raises (brick_z_shift : R) :
  (exists c, _parse_coords ("G1 Z0.2" ++ nl) = Ok c /\ is_empty c = false)
  /\ _modify_infill __init__ ("G1 Z0.2" ++ nl) brick_z_shift
     = Raise (KeyError "X")
  /\ _modify_infill __init__ ("G1 X1 Z0.2" ++ nl) brick_z_shift
     = Raise (KeyError "Y")
  /\ process_gcode __init__ [";TYPE:Internal infill" ++ nl; "G1 Z0.2" ++ nl]
     = ([";TYPE:Internal infill" ++ nl], Raise (KeyError "X")).
Proof.
  split; [eexists; split; reflexivity|].
  repeat split; reflexivity.
Qed.

(** ** Configuration *)


(** * Further properties of the code *)

(** ** The coordinate extractor *)

Section Extractor.

Lemma finditer_axis_letters (s : string) :
  Forall (fun m => is_axis (fst m) = true) (finditer_axis s).
Proof.
  induction s as [|c s IH]; simpl; [constructor|].
  destruct (is_axis c && starts_numch s) eqn:E; [|exact IH].
  apply andb_true_iff in E as [Ec _]. constructor; assumption.
Qed.

Lemma finditer_axis_z (s : string) :
  existsb is_z_match (finditer_axis s) = has_z_token s.
Proof.
  induction s as [|c s IH]; simpl; [reflexivity|].
  unfold is_axis.
  destruct (Ascii.eqb c "Z") eqn:Ez.
  - rewrite !orb_true_r. simpl.
    destruct (starts_numch s); simpl; [|exact IH].
    unfold is_z_match. simpl. rewrite Ez. reflexivity.
  - rewrite orb_false_r. simpl.
    destruct ((Ascii.eqb c "X" || Ascii.eqb c "Y") && starts_numch s);
      [|exact IH].
    simpl. unfold is_z_match at 1. simpl. rewrite Ez. exact IH.
Qed.

Lemma cZ_setitem (c : coords) (k : ascii) (v : R) :
  is_axis k = true ->
  cZ (setitem c k v) = if Ascii.eqb k "Z" then Some v else cZ c.
Proof.
  unfold is_axis, setitem. intros H.
  destruct (Ascii.eqb k "X") eqn:Ex.
  - apply Ascii.eqb_eq in Ex. subst k. reflexivity.
  - destruct (Ascii.eqb k "Y") eqn:Ey.
    + apply Ascii.eqb_eq in Ey. subst k. reflexivity.
    + simpl in H. rewrite H. reflexivity.
Qed.

Lemma parse_coords_loop_z (ms : list (ascii * string)) :
  Forall (fun m => is_axis (fst m) = true) ms ->
  forall c c',
    _parse_coords_loop ms c = Ok c' ->
    (cZ c' = None <-> cZ c = None /\ existsb is_z_match ms = false).
Proof.
  induction 1 as [|[k txt] ms Hk _ IH]; intros c c' H; simpl in H.
  - inversion H; subst. simpl. tauto.
  - destruct (float txt) as [v|e]; [|discriminate]. simpl in H.
    rewrite (IH _ _ H). simpl in Hk. rewrite (cZ_setitem _ _ _ Hk).
    unfold is_z_match at 2. simpl.
    destruct (Ascii.eqb k "Z"); simpl.
    + split; [intros [? _]; discriminate | intros [_ ?]; discriminate].
    + tauto.
Qed.

Lemma parse_coords_loop_error (ms : list (ascii * string)) (c : coords)
  (e : exn) :
  _parse_coords_loop ms c = Raise e -> e = ValueError.
Proof.
  revert c. induction ms as [|[k txt] ms IH]; intros c H; simpl in H.
  - discriminate.
  - unfold float in H.
    destruct (well_formed _ && _); simpl in H; [eauto | congruence].
Qed.

End Extractor.

Lemma parse_coords_cases (line : string) :
  match _parse_coords line with
  | Ok c => cZ c = None <-> has_z_token line = false
  | Raise e => e = ValueError
  end.
Proof.
  destruct (_parse_coords line) as [c|e] eqn:E; unfold _parse_coords in E.
  - rewrite (parse_coords_loop_z _ (finditer_axis_letters line) _ _ E).
    rewrite finditer_axis_z. simpl. tauto.
  - eapply parse_coords_loop_error. exact E.
Qed.

(** X1.  The mapping that [_parse_coords] returns holds the key Z exactly
    when the line holds a Z token; the only exception the extractor can
    raise is [ValueError]. *)
Theorem parse_coords_z_key (line : string) :
  match _parse_coords line with
  | Ok c => cZ c = None <-> has_z_token line = false
  | Raise e => e = ValueError
  end.
Proof. exact (parse_coords_cases line). Qed.


(** X3.  A line on which no axis letter is directly followed by a digit or
    a point (a comment, a feature marker, a command without coordinates) is
    returned unchanged under every feature, processor state and shift. *)
Theorem process_line_without_axis_token (p : SynergisticProcessor)
  (line : string) (f : PrintFeature) (s : R) :
  finditer_axis line = [] -> _process_line p line f s = Ok line.
Proof.
  intros H. destruct f; simpl; [| |reflexivity].
  - unfold _modify_infill, _parse_coords. rewrite H. reflexivity.
  - unfold _modify_internal_perimeter, _parse_coords. rewrite H. reflexivity.
Qed.

Lemma process_line_without_axis_token_witness :
  finditer_axis (";TYPE:Internal infill" ++ nl) = []
  /\ _process_line __init__ (";TYPE:Internal infill" ++ nl) INFILL 1
     = Ok (";TYPE:Internal infill" ++ nl).
Proof.
  split; [reflexivity|].
  apply (process_line_without_axis_token __init__ _ INFILL 1). reflexivity.
Defined.

(** ** Runs of the stream driver *)

Section Runs.

Lemma process_layer_external (p : SynergisticProcessor) (lines : list string) :
  layer_group_size p <> 0%Z ->
  exists p',
    _process_layer p lines EXTERNAL_PERIMETER = (lines, Ok p')
    /\ same_parameters p p' /\ current_layer p' = current_layer p.
Proof.
  intros Hg. unfold _process_layer.
  destruct (calculate_bricklayer_shift_ok p Hg) as (p' & E & Hp & Hc & _).
  rewrite E. exists p'. split; [apply write_lines_external | auto].
Qed.

Lemma detect_feature_stays_external (line : string) :
  switches_modulation line = false ->
  _detect_feature line EXTERNAL_PERIMETER = EXTERNAL_PERIMETER.
Proof.
  unfold switches_modulation, _detect_feature. intros H.
  apply orb_false_iff in H as [-> ->].
  destruct (contains _ line); reflexivity.
Qed.

Lemma process_loop_external (input : list string) :
  Forall (fun l => switches_modulation l = false) (body_lines input) ->
  forall p buf,
    layer_group_size p <> 0%Z ->
    exists p',
      process_loop p buf EXTERNAL_PERIMETER input
      = ((buf ++ body_lines input)%list, Ok p').
Proof.
  induction input as [|l rest IH]; intros HF p buf Hg.
  - unfold body_lines. simpl. rewrite app_nil_r.
    destruct buf as [|b buf]; [eexists; reflexivity|].
    destruct (process_layer_external p (b :: buf) Hg) as (p' & E & _).
    exists p'. exact E.
  - rewrite body_lines_cons in *. simpl.
    destruct (_is_layer_change l).
    + destruct (process_layer_external p buf Hg) as (p1 & E & Hp & _).
      rewrite E.
      assert (Hg' : layer_group_size
                      (set_current_layer p1 (current_layer p1 + 1)) <> 0%Z).
      { simpl. destruct Hp as (_ & _ & _ & _ & ->). exact Hg. }
      destruct (IH HF _ [] Hg') as (p' & E').
      rewrite E'. exists p'. reflexivity.
    + inversion HF as [|? ? Hl HF']; subst.
      rewrite (detect_feature_stays_external l Hl).
      destruct (IH HF' p (buf ++ [l])%list Hg) as (p' & E').
      rewrite E', <- app_assoc. exists p'. reflexivity.
Qed.

Lemma process_loop_single_layer (input : list string) :
  Forall (fun l => _is_layer_change l = false) input ->
  forall p buf f,
    (buf ++ input)%list <> [] ->
    process_loop p buf f input
    = _process_layer p (buf ++ input)%list (feature_after f input).
Proof.
  induction 1 as [|l rest Hl _ IH]; intros p buf f Hne.
  - simpl. rewrite app_nil_r in *. destruct buf; [contradiction|reflexivity].
  - simpl. rewrite Hl. rewrite IH.
    + rewrite <- app_assoc. reflexivity.
    + rewrite <- app_assoc. exact Hne.
Qed.

Lemma process_loop_parameters (input : list string) :
  forall p buf f out p',
    process_loop p buf f input = (out, Ok p') ->
    same_parameters p p'
    /\ infill_pattern p' = infill_pattern p
    /\ infill_angle p' = infill_angle p.
Proof.
  assert (Flush : forall p buf f out p',
             _process_layer p buf f = (out, Ok p') ->
             same_parameters p p'
             /\ infill_pattern p' = infill_pattern p
             /\ infill_angle p' = infill_angle p).
  { intros p buf f out p' H. unfold _process_layer in H.
    unfold _calculate_bricklayer_shift in H.
    destruct (layer_group_size p =? 0)%Z; [discriminate|].
    apply write_lines_state in H. subst p'.
    destruct (_ =? _)%Z; unfold same_parameters; simpl; auto 10. }
  induction input as [|l rest IH]; intros p buf f out p' H; simpl in H.
  - destruct buf as [|b buf]; [|eapply Flush; eauto].
    inversion H; subst. unfold same_parameters. auto 10.
  - destruct (_is_layer_change l); [|eapply IH; eauto].
    destruct (_process_layer p buf f) as [o1 [p1|e]] eqn:E; [|discriminate].
    destruct (process_loop _ _ _ rest) as [o2 r2] eqn:E2.
    inversion H; subst.
    destruct (Flush _ _ _ _ _ E) as (Hp & Hi & Ha).
    destruct (IH _ _ _ _ _ E2) as (Hp' & Hi' & Ha'). simpl in Hi', Ha'.
    split; [|split; congruence].
    eapply same_parameters_trans; [|exact Hp'].
    apply same_parameters_next_layer. exact Hp.
Qed.

End Runs.

(** X4.  When none of the lines that are not layer markers holds the
    infill or the internal-perimeter marker, a run writes exactly those
    lines, unchanged and in order, and completes, whatever the lines hold;
    it needs only a group size other than 0. *)
Theorem process_gcode_passes_through (p : SynergisticProcessor)
  (input : list string) :
  layer_group_size p <> 0%Z ->
  Forall (fun l => switches_modulation l = false) (body_lines input) ->
  exists p', process_gcode p input = (body_lines input, Ok p').
Proof.
  intros Hg HF. exact (process_loop_external input HF p [] Hg).
Qed.

Lemma process_gcode_passes_through_witness :
  exists p',
    process_gcode __init__
      ["G1 X1 Y1 Z0.2" ++ nl; ";LAYER:1" ++ nl;
       ";TYPE:External perimeter" ++ nl; "G1 Z" ++ nl]
    = (["G1 X1 Y1 Z0.2" ++ nl; ";TYPE:External perimeter" ++ nl;
        "G1 Z" ++ nl], Ok p').
Proof.
  assert (Hg : layer_group_size __init__ <> 0%Z) by (simpl; lia).
  apply (process_gcode_passes_through __init__
    ["G1 X1 Y1 Z0.2" ++ nl; ";LAYER:1" ++ nl;
     ";TYPE:External perimeter" ++ nl; "G1 Z" ++ nl] Hg).
  repeat constructor.
Defined.

(** X5.  An input without layer markers is one layer: the run is a single
    flush of all its lines under the feature in force after the last line,
    that is the feature of the last marker met, or the external perimeter
    when there is none. *)
Theorem process_gcode_single_layer (p : SynergisticProcessor)
  (input : list string) :
  input <> [] ->
  Forall (fun l => _is_layer_change l = false) input ->
  process_gcode p input
  = _process_layer p input (feature_after EXTERNAL_PERIMETER input).
Proof.
  intros Hne HF. exact (process_loop_single_layer input HF p [] _ Hne).
Qed.

Lemma process_gcode_single_layer_witness :
  process_gcode __init__
    [";TYPE:Internal perimeter" ++ nl; "G1 X5 Y5 Z0.4" ++ nl]
  = _process_layer __init__
      [";TYPE:Internal perimeter" ++ nl; "G1 X5 Y5 Z0.4" ++ nl]
      INTERNAL_PERIMETER.
Proof.
  apply (process_gcode_single_layer __init__
    [";TYPE:Internal perimeter" ++ nl; "G1 X5 Y5 Z0.4" ++ nl]).
  - discriminate.
  - repeat constructor.
Defined.

(** X6.  A run that completes leaves every tunable of the processor as it
    found it: amplitude, wavelength, transition length, shift, group size,
    infill pattern and infill angle; only [current_layer] and the
    accumulator move. *)
Theorem process_gcode_keeps_parameters (p : SynergisticProcessor)
  (input out : list string) (p' : SynergisticProcessor) :
  process_gcode p input = (out, Ok p') ->
  infill_amplitude p' = infill_amplitude p
  /\ wavelength p' = wavelength p
  /\ transition_length p' = transition_length p
  /\ bricklayer_shift p' = bricklayer_shift p
  /\ layer_group_size p' = layer_group_size p
  /\ infill_pattern p' = infill_pattern p
  /\ infill_angle p' = infill_angle p.
Proof.
  intros H.
  destruct (process_loop_parameters input _ _ _ _ _ H)
    as ((A1 & A2 & A3 & A4 & A5) & Hi & Ha).
  auto 10.
Qed.

Lemma process_gcode_keeps_parameters_witness :
  exists out p',
    process_gcode __init__ ["G1 X1 Y1" ++ nl; ";LAYER:1" ++ nl] = (out, Ok p')
    /\ bricklayer_shift p' = bricklayer_shift __init__.
Proof.
  eexists. eexists. split; [reflexivity|].
  apply (process_gcode_keeps_parameters __init__
           ["G1 X1 Y1" ++ nl; ";LAYER:1" ++ nl] _ _ eq_refl).
Defined.

(** ** The square wave, continued *)

Section WaveShape.

Variable p : SynergisticProcessor.


End WaveShape.



(** ** The line rewriter, continued *)

Section LetterZ.

Local Open Scope string_scope.

Lemma contains_z_no_letter (s : string) :
  contains "Z" s = negb (no_letter_z s).
Proof.
  induction s as [|c s IH]; [reflexivity|].
  cbn [contains no_letter_z String.prefix]. rewrite IH.
  destruct (ascii_dec "Z" c) as [<-|N].
  - destruct s; reflexivity.
  - assert (E : Ascii.eqb c "Z" = false)
      by (apply Ascii.eqb_neq; congruence).
    rewrite E. destruct s; reflexivity.
Qed.

Lemma no_letter_z_app (a b : string) :
  no_letter_z (a ++ b) = no_letter_z a && no_letter_z b.
Proof.
  induction a as [|c a IH]; simpl; [reflexivity|].
  rewrite IH. apply andb_assoc.
Qed.

Lemma no_letter_z_rstrip (s : string) :
  no_letter_z s = true -> no_letter_z (rstrip s) = true.
Proof.
  induction s as [|c s IH]; intros H; [reflexivity|].
  simpl in H. apply andb_true_iff in H as [Hc Hs]. specialize (IH Hs).
  simpl. destruct (rstrip s) as [|c' r].
  - destruct (isspace c); simpl; [reflexivity | now rewrite Hc].
  - cbn [no_letter_z] in *. now rewrite Hc, IH.
Qed.

Lemma all_digits_text (s : string) :
  all_digits s = true -> all_numch s = true /\ no_letter_z s = true.
Proof.
  induction s as [|c s IH]; intros H; [split; reflexivity|].
  simpl in H. apply andb_true_iff in H as [Hc Hs].
  destruct (IH Hs) as [A B]. simpl. unfold is_numch. rewrite Hc, A, B.
  split; [reflexivity|].
  destruct (Ascii.eqb c "Z") eqn:E; [|reflexivity].
  apply Ascii.eqb_eq in E. subst c. discriminate.
Qed.

Lemma all_numch_app (a b : string) :
  all_numch (a ++ b) = all_numch a && all_numch b.
Proof.
  induction a as [|c a IH]; simpl; [reflexivity|].
  rewrite IH. apply andb_assoc.
Qed.

(** The text of a formatted value holds no letter Z, and either is a
    non-empty run of digits and points or starts with the sign. *)
Lemma format_3f_shape (z : R) :
  no_letter_z (format_3f z) = true
  /\ (all_numch (format_3f z) = true /\ format_3f z <> ""
      \/ starts_numch (format_3f z) = false).
Proof.
  destruct (format_3f_three_decimals z)
    as (sign & ip & d1 & d2 & d3 & E & Hs & Hne & Hip & H1 & H2 & H3).
  destruct (all_digits_text ip Hip) as [Aip Zip].
  assert (D : all_digits (String d1 (String d2 (String d3 ""))) = true)
    by (simpl; now rewrite H1, H2, H3).
  destruct (all_digits_text _ D) as [Ad Zd].
  remember (String d1 (String d2 (String d3 ""))) as ddd eqn:Eddd.
  clear Eddd D H1 H2 H3.
  assert (Ab : all_numch (ip ++ String "." ddd) = true).
  { rewrite all_numch_app, Aip. simpl. exact Ad. }
  assert (Zb : no_letter_z (ip ++ String "." ddd) = true).
  { rewrite no_letter_z_app, Zip. simpl. exact Zd. }
  rewrite E. change ("." ++ ddd) with (String "." ddd).
  destruct Hs as [-> | ->].
  - simpl append. split; [exact Zb|]. left. split; [exact Ab|].
    destruct ip; [contradiction | discriminate].
  - split; [|right; reflexivity].
    change ("-" ++ ip ++ String "." ddd)
      with (String "-" (ip ++ String "." ddd)).
    cbn [no_letter_z]. rewrite Zb. reflexivity.
Qed.

End LetterZ.

Section Resubstitution.

Local Open Scope string_scope.

(** [fmt] is the text of the value and ["Z" ++ fmt] the replacement. *)
Variable fmt : string.
Hypothesis fmt_no_z : no_letter_z fmt = true.
Hypothesis fmt_shape :
  all_numch fmt = true /\ fmt <> "" \/ starts_numch fmt = false.

Let repl : string := String "Z" fmt.

Lemma starts_numch_sub_false (s : string) :
  starts_numch (sub_z_from false repl s) = starts_numch s.
Proof.
  destruct s as [|c s]; [reflexivity|]. cbn [sub_z_from andb].
  destruct (Ascii.eqb c "Z" && starts_numch s) eqn:E; [|reflexivity].
  apply andb_true_iff in E as [Ec _]. apply Ascii.eqb_eq in Ec. subst c.
  reflexivity.
Qed.

Lemma starts_numch_sub_true (s : string) :
  starts_numch (sub_z_from true repl s) = false.
Proof.
  induction s as [|c s IH]; [reflexivity|]. cbn [sub_z_from andb].
  destruct (is_numch c) eqn:En; [exact IH|].
  destruct (Ascii.eqb c "Z" && starts_numch s); [reflexivity|].
  simpl. exact En.
Qed.

Lemma sub_z_from_copy (t rest : string) :
  no_letter_z t = true ->
  sub_z_from false repl (t ++ rest) = t ++ sub_z_from false repl rest.
Proof.
  induction t as [|c t IH]; intros H; [reflexivity|].
  simpl in H. apply andb_true_iff in H as [Hc Ht].
  apply negb_true_iff in Hc.
  change (String c t ++ rest) with (String c (t ++ rest)).
  cbn [sub_z_from andb]. rewrite Hc. simpl. now rewrite IH.
Qed.

(** A token written by the rewriter is left as it is by a second pass. *)
Lemma sub_z_from_written_token (T : string) :
  starts_numch T = false ->
  sub_z_from false repl T = T ->
  sub_z_from false repl (String "Z" (fmt ++ T)) = String "Z" (fmt ++ T).
Proof.
  intros HT HF. cbn [sub_z_from andb]. simpl Ascii.eqb.
  destruct fmt_shape as [[Hall Hne] | Hneg].
  - assert (Hs : starts_numch (fmt ++ T) = true).
    { rewrite starts_numch_app. destruct fmt as [|c f]; [contradiction|].
      simpl in Hall. apply andb_true_iff in Hall as [Hc _]. exact Hc. }
    rewrite Hs. simpl.
    rewrite sub_z_from_run by assumption. rewrite HF. reflexivity.
  - assert (Hs : starts_numch (fmt ++ T) = false).
    { rewrite starts_numch_app. destruct fmt; assumption. }
    rewrite Hs. simpl.
    rewrite sub_z_from_copy by exact fmt_no_z. rewrite HF. reflexivity.
Qed.

Lemma sub_z_from_idempotent (s : string) :
  forall b,
    sub_z_from false repl (sub_z_from b repl s) = sub_z_from b repl s.
Proof.
  induction s as [|c s IH]; intros b; [reflexivity|].
  cbn [sub_z_from].
  destruct (b && is_numch c); [apply IH|].
  destruct (Ascii.eqb c "Z" && starts_numch s) eqn:E.
  - change (repl ++ sub_z_from true repl s)
      with (String "Z" (fmt ++ sub_z_from true repl s)).
    apply sub_z_from_written_token; [apply starts_numch_sub_true | apply IH].
  - cbn [sub_z_from andb]. rewrite starts_numch_sub_false, E.
    now rewrite IH.
Qed.

Lemma no_letter_z_sub (s : string) :
  forall b, no_letter_z (sub_z_from b repl s) = no_letter_z s.
Proof.
  induction s as [|c s IH]; intros b; [reflexivity|].
  cbn [sub_z_from no_letter_z].
  destruct (b && is_numch c) eqn:Eb.
  - apply andb_true_iff in Eb as [_ En]. rewrite IH.
    destruct (Ascii.eqb c "Z") eqn:Ez; [|reflexivity].
    apply Ascii.eqb_eq in Ez. subst c. discriminate.
  - destruct (Ascii.eqb c "Z" && starts_numch s) eqn:E.
    + apply andb_true_iff in E as [Ec _]. rewrite Ec. reflexivity.
    + cbn [no_letter_z]. now rewrite IH.
Qed.

End Resubstitution.

Lemma has_z_token_app_no_z (pre s : string) :
  no_letter_z pre = true -> has_z_token (pre ++ s) = has_z_token s.
Proof.
  induction pre as [|c pre IH]; intros H; [reflexivity|].
  simpl in H. apply andb_true_iff in H as [Hc Hp].
  apply negb_true_iff in Hc. simpl. rewrite Hc. simpl. auto.
Qed.

(** With a replacement that starts with [Z-], nothing of the result is a Z
    token. *)
Lemma has_z_token_sub_negative (t s : string) :
  no_letter_z t = true ->
  forall b,
    has_z_token (sub_z_from b (String "Z" (String "-" t)) s) = false.
Proof.
  intros Ht. induction s as [|c s IH]; intros b; [reflexivity|].
  cbn [sub_z_from].
  destruct (b && is_numch c); [apply IH|].
  destruct (Ascii.eqb c "Z" && starts_numch s) eqn:E.
  - change (String "Z" (String "-" t)
              ++ sub_z_from true (String "Z" (String "-" t)) s)%string
      with (String "Z" (String "-"
              (t ++ sub_z_from true (String "Z" (String "-" t)) s)))%string.
    cbn [has_z_token starts_numch]. simpl.
    rewrite has_z_token_app_no_z by exact Ht. apply IH.
  - cbn [has_z_token].
    rewrite (starts_numch_sub_false (String "-" t)), E. simpl. apply IH.
Qed.

(** X10.  Rewriting is idempotent: a line already rewritten to a value is
    left unchanged when rewritten to the same value again, whether the first
    pass replaced tokens, appended one, or found only a stray letter Z. *)
Theorem update_z_value_idempotent (line : string) (new_z : R) :
  _update_z_value (_update_z_value line new_z) new_z
  = _update_z_value line new_z.
Proof.
  destruct (format_3f_shape new_z) as [Hz Hs].
  unfold _update_z_value at 2 3.
  destruct (contains "Z" line) eqn:E.
  - unfold _update_z_value, sub_z.
    change ("Z" ++ format_3f new_z)%string
      with (String "Z" (format_3f new_z)).
    rewrite contains_z_no_letter, no_letter_z_sub, <- contains_z_no_letter, E.
    apply (sub_z_from_idempotent _ Hz Hs).
  - unfold _update_z_value.
    rewrite contains_z_no_letter in E. apply negb_false_iff in E.
    assert (C : contains "Z" (rstrip line ++ " Z" ++ format_3f new_z ++ nl)
                = true).
    { rewrite contains_z_no_letter, no_letter_z_app.
      simpl. apply negb_true_iff, andb_false_r. }
    rewrite C. unfold sub_z.
    change ("Z" ++ format_3f new_z)%string
      with (String "Z" (format_3f new_z)).
    change (" Z" ++ format_3f new_z ++ nl)%string
      with (" " ++ String "Z" (format_3f new_z ++ nl))%string.
    rewrite (sub_z_from_copy (format_3f new_z))
      by (apply no_letter_z_rstrip; exact E).
    rewrite (sub_z_from_copy (format_3f new_z) " ") by reflexivity.
    rewrite (sub_z_from_written_token _ Hz Hs) by reflexivity.
    reflexivity.
Qed.

(** X11.  A negative value is written with its sign right after the letter
    ([Z-0.200]), which the token pattern does not accept: after rewriting
    to a negative value no Z token is left on the line, so the extractor
    reads no Z from it. *)
Theorem update_z_value_negative_unreadable (line : string) (new_z : R) :
  new_z < 0 -> has_z_token (_update_z_value line new_z) = false.
Proof.
  intros Hneg.
  destruct (format_3f_shape new_z) as [Hz _].
  assert (F : exists t, format_3f new_z = String "-" t).
  { unfold format_3f. destruct (Rlt_dec new_z 0); [|contradiction].
    eexists. reflexivity. }
  destruct F as [t F]. rewrite F in Hz.
  assert (Ht : no_letter_z t = true) by exact Hz.
  unfold _update_z_value. rewrite F.
  destruct (contains "Z" line) eqn:E.
  - apply has_z_token_sub_negative. exact Ht.
  - rewrite contains_z_no_letter in E. apply negb_false_iff in E.
    rewrite has_z_token_app_no_z by (apply no_letter_z_rstrip; exact E).
    change (" Z" ++ String "-" t ++ nl)%string
      with (String " " (String "Z" (String "-" (t ++ nl)))).
    cbn [has_z_token starts_numch]. simpl.
    rewrite has_z_token_app_no_z by exact Ht. reflexivity.
Qed.

Lemma update_z_value_negative_unreadable_witness :
  -1 / 10 < 0
  /\ has_z_token (_update_z_value ("G1 X5 Y5 Z0.1" ++ nl) (-1 / 10)) = false.
Proof.
  assert (H : -1 / 10 < 0) by lra.
  split; [exact H|].
  exact (update_z_value_negative_unreadable ("G1 X5 Y5 Z0.1" ++ nl)
           (-1 / 10) H).
Defined.

(** ** Layers and errors *)

Section Layers.

Lemma feature_after_app (f : PrintFeature) (a b : list string) :
  feature_after f (a ++ b) = feature_after (feature_after f a) b.
Proof. unfold feature_after. apply fold_left_app. Qed.

(** The loop up to the first marker: the lines before it join the buffer,
    the marker flushes the buffer under the feature then in force, and the
    loop goes on with an empty buffer and the same feature. *)
Lemma process_loop_first_marker (l1 : list string) (mk : string)
  (rest : list string) :
  Forall (fun l => _is_layer_change l = false) l1 ->
  _is_layer_change mk = true ->
  forall p buf f,
    process_loop p buf f (l1 ++ mk :: rest)
    = match _process_layer p (buf ++ l1) (feature_after f l1) with
      | (out, Raise e) => (out, Raise e)
      | (out, Ok p') =>
          let (out', r) :=
            process_loop (set_current_layer p' (current_layer p' + 1)) []
              (feature_after f l1) rest in
          ((out ++ out')%list, r)
      end.
Proof.
  intros HF Hmk. induction HF as [|l l1 Hl _ IH]; intros p buf f.
  - simpl. rewrite Hmk, app_nil_r. reflexivity.
  - simpl. rewrite Hl, IH, <- app_assoc. reflexivity.
Qed.

Lemma process_loop_zero_group (input : list string) :
  forall p buf f,
    layer_group_size p = 0%Z -> (buf ++ input)%list <> [] ->
    process_loop p buf f input = ([], Raise ZeroDivisionError).
Proof.
  assert (Flush : forall p buf f,
             layer_group_size p = 0%Z ->
             _process_layer p buf f = ([], Raise ZeroDivisionError)).
  { intros p buf f Hg. unfold _process_layer, _calculate_bricklayer_shift.
    rewrite Hg. reflexivity. }
  induction input as [|l rest IH]; intros p buf f Hg Hne; simpl.
  - rewrite app_nil_r in Hne. destruct buf; [contradiction|].
    apply Flush. exact Hg.
  - destruct (_is_layer_change l).
    + rewrite (Flush _ _ _ Hg). reflexivity.
    + apply IH; [exact Hg|]. rewrite <- app_assoc. exact Hne.
Qed.

End Layers.

(** X12.  The feature is carried across a layer boundary and the marker
    line only flushes: for two marker-free layers around one marker, the
    first layer (even an empty one) is flushed under the feature in force
    after its own lines, [current_layer] is incremented, and the second is
    flushed under the feature in force after the lines of both; the text of
    the marker plays no part and is not written. *)
Theorem process_gcode_two_layers (p : SynergisticProcessor)
  (l1 : list string) (mk : string) (l2 : list string) :
  Forall (fun l => _is_layer_change l = false) l1 ->
  _is_layer_change mk = true ->
  Forall (fun l => _is_layer_change l = false) l2 -> l2 <> [] ->
  process_gcode p (l1 ++ mk :: l2)
  = match _process_layer p l1 (feature_after EXTERNAL_PERIMETER l1) with
    | (out, Raise e) => (out, Raise e)
    | (out, Ok p') =>
        let (out', r) :=
          _process_layer (set_current_layer p' (current_layer p' + 1)) l2
            (feature_after EXTERNAL_PERIMETER (l1 ++ l2)) in
        ((out ++ out')%list, r)
    end.
Proof.
  intros H1 Hmk H2 Hne. unfold process_gcode.
  rewrite (process_loop_first_marker l1 mk l2 H1 Hmk). simpl app.
  destruct (_process_layer p l1 _) as [out [p'|e]]; [|reflexivity].
  rewrite (process_loop_single_layer l2 H2) by exact Hne.
  rewrite feature_after_app. reflexivity.
Qed.

Lemma process_gcode_two_layers_witness :
  process_gcode __init__
    ([";TYPE:Internal perimeter" ++ nl]
     ++ (";LAYER:1 ;TYPE:External perimeter" ++ nl) :: ["G1 X5 Y5" ++ nl])
  = match _process_layer __init__ [";TYPE:Internal perimeter" ++ nl]
            INTERNAL_PERIMETER with
    | (out, Raise e) => (out, Raise e)
    | (out, Ok p') =>
        let (out', r) :=
          _process_layer (set_current_layer p' (current_layer p' + 1))
            ["G1 X5 Y5" ++ nl] INTERNAL_PERIMETER in
        ((out ++ out')%list, r)
    end.
Proof.
  apply (process_gcode_two_layers __init__
           [";TYPE:Internal perimeter" ++ nl]
           (";LAYER:1 ;TYPE:External perimeter" ++ nl) ["G1 X5 Y5" ++ nl]).
  - repeat constructor.
  - reflexivity.
  - repeat constructor.
  - discriminate.
Defined.

(** X13.  With a layer group size of 0 every run over a non-empty input
    stops at its first flush with [ZeroDivisionError], before any line is
    written. *)
Theorem process_gcode_zero_group_size (p : SynergisticProcessor)
  (input : list string) :
  layer_group_size p = 0%Z -> input <> [] ->
  process_gcode p input = ([], Raise ZeroDivisionError).
Proof.
  intros Hg Hne. apply process_loop_zero_group; assumption.
Qed.

Lemma process_gcode_zero_group_size_witness :
  process_gcode (mkProcessor (15 / 100) 4 (2 / 10) (1 / 10) 0 0 0
                   "rectilinear" 45)
    ["G1 X1 Y1" ++ nl]
  = ([], Raise ZeroDivisionError).
Proof.
  apply (process_gcode_zero_group_size
           (mkProcessor (15 / 100) 4 (2 / 10) (1 / 10) 0 0 0
              "rectilinear" 45) ["G1 X1 Y1" ++ nl]).
  - reflexivity.
  - discriminate.
Defined.

(** X14.  At phase 0 the wave starts every period at delta 0: when the
    transition band is not empty ([transition_length / wavelength > 0]), a
    point whose X is a whole number of wavelengths gets the delta 0. *)
Theorem square_wave_z_period_start (p : SynergisticProcessor) (y : R)
  (k : Z) :
  0 < transition_length p / wavelength p ->
  _square_wave_z p (IZR k * wavelength p) y 0 = Ok 0.
Proof.
  intros Hs.
  assert (Hw : wavelength p <> 0).
  { intros E. rewrite E in Hs. unfold Rdiv in Hs.
    rewrite Rinv_0, Rmult_0_r in Hs. lra. }
  assert (Ht : transition_length p <> 0).
  { intros E. rewrite E in Hs. unfold Rdiv in Hs.
    rewrite Rmult_0_l in Hs. lra. }
  assert (N : normalized p (IZR k * wavelength p) y 0 = 0).
  { unfold normalized. rewrite cos_0, sin_0.
    replace ((IZR k * wavelength p * 1 + y * 0) / wavelength p)
      with (IZR k) by (field; exact Hw).
    rewrite Int_part_IZR. field. exact Hw. }
  rewrite square_wave_z_rising by (auto; rewrite N; exact Hs).
  rewrite N. f_equal.
  replace (0 * PI / transition_length p) with 0 by (unfold Rdiv; lra).
  rewrite sin_0. lra.
Qed.

Lemma square_wave_z_period_start_witness :
  0 < transition_length __init__ / wavelength __init__
  /\ _square_wave_z __init__ (IZR 3 * wavelength __init__) 7 0 = Ok 0.
Proof.
  assert (H : 0 < transition_length __init__ / wavelength __init__)
    by (simpl; lra).
  split; [exact H | exact (square_wave_z_period_start __init__ 7 3 H)].
Defined.

(** * The accumulator, the driver and the configuration, layer by layer *)

Section LayerByLayer.





End LayerByLayer.






Section ConfigurationErrors.






End ConfigurationErrors.


